(** * Zenmap GUI widgets: ProfileCombo and HIGFrame

    A shallow embedding of two widget classes of the Zenmap front end,

      - zenmapGUI/ProfileCombo.py          (class ProfileCombo)
      - zenmapGUI/higwidgets/higframe.py   (class HIGFrame)

    Methods of a widget mutate the widget object; here every method is a
    computation in a state-and-exception monad over the objects it can
    reach.  The Gtk objects the classes are built from (ListStore, Entry,
    EntryCompletion, Label, Frame) are modelled by the part of their
    documented behaviour the two classes rely on. *)

From Stdlib Require Import List String Ascii Arith NArith Lia Bool.
From Stdlib Require Import Permutation Sorted Mergesort Orders.
Import ListNotations.
Local Open Scope string_scope.
Local Open Scope list_scope.

(** ** Python exceptions and the state-and-exception monad *)

Inductive exn : Type :=
| TypeError
| IndexError
| ValueError
| AttributeError.

Inductive result (A : Type) : Type :=
| Ok (a : A)
| Raise (e : exn).

Arguments Ok {A} a.
Arguments Raise {A} e.

Module PyM.

(** A computation over a state [S]: it returns a value and the new state,
    or raises. *)
Definition M (S A : Type) : Type := S -> result (A * S).

Definition ret {S A} (a : A) : M S A := fun s => Ok (a, s).

Definition bind {S A B} (c : M S A) (k : A -> M S B) : M S B :=
  fun s => match c s with
           | Ok (a, s') => k a s'
           | Raise e => Raise e
           end.

Definition modify {S} (f : S -> S) : M S unit := fun s => Ok (tt, f s).

(** [for i in range(n): body]; the bound [n] is evaluated once, before
    the first iteration. *)
Fixpoint for_range {S} (n : nat) (body : M S unit) : M S unit :=
  match n with
  | O => ret tt
  | Datatypes.S k => bind body (fun _ => for_range k body)
  end.

(** [for x in xs: body x] over a Python sequence. *)
Fixpoint for_each {S A} (xs : list A) (body : A -> M S unit) : M S unit :=
  match xs with
  | [] => ret tt
  | x :: rest => bind (body x) (fun _ => for_each rest body)
  end.

End PyM.

Import PyM.

Declare Scope py_scope.
Delimit Scope py_scope with py.
Notation "x <- c ;; k" := (bind c (fun x => k))
  (at level 61, c at next level, right associativity) : py_scope.
Notation "c ;;; k" := (bind c (fun _ => k))
  (at level 61, right associativity) : py_scope.
Local Open Scope py_scope.

(** ** Gtk.ListStore(str): an ordered store of rows with one str column *)

Module ListStore.

Definition t : Type := list string.

(** A tree iterator of a list store designates a row by its position. *)
Definition TreeIter : Type := nat.

Definition new : t := [].

(** [len(store)] *)
Definition len (l : t) : nat := List.length l.

(** [store.get_iter_first()]: the iterator of the first row, [None] on an
    empty store. *)
Definition get_iter_first (l : t) : option TreeIter :=
  match l with
  | [] => None
  | _ :: _ => Some 0
  end.

Fixpoint remove (i : nat) (l : t) : t :=
  match l, i with
  | [], _ => []
  | _ :: rest, O => rest
  | x :: rest, Datatypes.S j => x :: remove j rest
  end.

(** [del store[key]]: removes the designated row; [None] is no key, and
    an iterator past the last row designates nothing. *)
Definition delitem (key : option TreeIter) (l : t) : result t :=
  match key with
  | None => Raise TypeError
  | Some i => if Nat.ltb i (len l) then Ok (remove i l) else Raise IndexError
  end.

(** [store.append(row)]: the row gives one value per column. *)
Definition append (row : list string) (l : t) : result t :=
  match row with
  | [c] => Ok (l ++ [c])
  | _ => Raise ValueError
  end.

End ListStore.

(** ** Gtk.Entry and Gtk.EntryCompletion *)

Record Entry : Type := { text : string }.

Definition Entry_new : Entry := {| text := "" |}.

(** The store a completion reads its suggestions from: the completion of a
    ProfileCombo is handed the combo's own model, the same object. *)
Inductive model_ref : Type := ComboModel.

Record EntryCompletion : Type := {
  completion_model : option model_ref;
  text_column : option nat
}.

Definition EntryCompletion_new : EntryCompletion :=
  {| completion_model := None; text_column := None |}.

(** ** The configuration collaborator *)

(** Modelled from the spec: class CommandProfile of zenmapCore.UmitConf is
    not among the sources.  The spec gives a configuration store holding
    named profiles (a name and its saved options) and a reader over it that
    exposes [sections()], the names of all defined profiles; a store that is
    absent yields no names.  The store is what persists between calls; a
    reader is an object built from it by each call of [CommandProfile()]. *)
Module CommandProfile.

Definition Profile : Type := (string * list (string * string))%type.

(** The backing store; [None] when there is no profile source. *)
Definition store : Type := option (list Profile).

(** The reader object built by [CommandProfile()]. *)
Record t : Type := { loaded : list Profile }.

Definition new (cfg : store) : t :=
  {| loaded := match cfg with Some ps => ps | None => [] end |}.

Definition sections (p : t) : list string := map fst (loaded p).

End CommandProfile.

(** ** Python's list.sort() on a list of str *)

(** Strings are compared lexicographically, character by character; a str
    is held as its UTF-8 bytes, whose order is that of the code points. *)
Module StrOrder <: TotalLeBool.
Definition t : Type := string.
Definition leb : t -> t -> bool := String.leb.
Theorem leb_total : forall a1 a2, leb a1 a2 = true \/ leb a2 a1 = true.
Proof. exact String.leb_total. Qed.
End StrOrder.

Module StrSort := Sort StrOrder.

Definition list_sort (l : list string) : list string := StrSort.sort l.

(** ** ProfileCombo *)

Record ProfileCombo : Type := {
  model : ListStore.t;
  child : Entry;
  completion : EntryCompletion
}.

(** What a method of ProfileCombo can reach: the widget itself and the
    configuration store behind CommandProfile. *)
Record World : Type := {
  conf : CommandProfile.store;
  self : ProfileCombo
}.

Definition with_model (l : ListStore.t) (w : World) : World :=
  {| conf := conf w;
     self := {| model := l; child := child (self w);
                completion := completion (self w) |} |}.

Definition with_child (e : Entry) (w : World) : World :=
  {| conf := conf w;
     self := {| model := model (self w); child := e;
                completion := completion (self w) |} |}.

Definition with_completion (c : EntryCompletion) (w : World) : World :=
  {| conf := conf w;
     self := {| model := model (self w); child := child (self w);
                completion := c |} |}.

(** Operations on the store reached through [self.get_model()]: the name
    [list] of the source is bound to the widget's own store, not to a copy,
    so each of them acts on the model of the widget. *)
Definition list_len : M World nat :=
  fun w => Ok (ListStore.len (model (self w)), w).

Definition list_get_iter_first : M World (option ListStore.TreeIter) :=
  fun w => Ok (ListStore.get_iter_first (model (self w)), w).

Definition list_delitem (key : option ListStore.TreeIter) : M World unit :=
  fun w => match ListStore.delitem key (model (self w)) with
           | Ok l => Ok (tt, with_model l w)
           | Raise e => Raise e
           end.

Definition list_append (row : list string) : M World unit :=
  fun w => match ListStore.append row (model (self w)) with
           | Ok l => Ok (tt, with_model l w)
           | Raise e => Raise e
           end.

(** The first loop of [set_profiles]. *)
Definition clear_rows (n : nat) : M World unit :=
  for_range n (iter <- list_get_iter_first ;; list_delitem iter).

(** The second loop of [set_profiles]. *)
Definition append_rows (profiles : list string) : M World unit :=
  for_each profiles (fun command => list_append [command]).

Definition set_profiles (profiles : list string) : M World unit :=
  n <- list_len ;;
  clear_rows n ;;;
  append_rows profiles.

(** [CommandProfile()]: the reader is built from the configuration store. *)
Definition new_CommandProfile : M World CommandProfile.t :=
  fun w => Ok (CommandProfile.new (conf w), w).

(** [profiles.sort()] sorts in place the list [sections()] returned; that
    list and the reader are objects local to the call, and [del(profile)]
    drops the reader. *)
Definition update : M World unit :=
  profile <- new_CommandProfile ;;
  let profiles := CommandProfile.sections profile in
  let profiles := list_sort profiles in
  set_profiles profiles.

Definition get_selected_profile : M World string :=
  fun w => Ok (text (child (self w)), w).

Definition set_selected_profile (profile : string) : M World unit :=
  modify (with_child {| text := profile |}).

Definition completion_set_model (r : model_ref) : M World unit :=
  modify (fun w => with_completion
                     {| completion_model := Some r;
                        text_column := text_column (completion (self w)) |} w).

Definition completion_set_text_column (c : nat) : M World unit :=
  modify (fun w => with_completion
                     {| completion_model := completion_model (completion (self w));
                        text_column := Some c |} w).

(** [ProfileCombo.__init__]: a fresh store and entry, a completion over the
    same store, then [update]. *)
Definition ProfileCombo_init (cfg : CommandProfile.store) : result (unit * World) :=
  let w := {| conf := cfg;
              self := {| model := ListStore.new; child := Entry_new;
                         completion := EntryCompletion_new |} |} in
  (completion_set_model ComboModel ;;;
   completion_set_text_column 0 ;;;
   update) w.

(** The list the widget displays: the rows of its model. *)
Definition displayed (w : World) : list string := model (self w).

(** The suggestions of the completion are read from the store it refers
    to. *)
Definition suggestions (w : World) : list string :=
  match completion_model (completion (self w)) with
  | Some ComboModel => model (self w)
  | None => []
  end.

(** ** Gtk.Label and the markup it displays *)

(** [Gtk.Label.set_markup] reads its argument as Pango markup.  The model
    covers character data, the five named entities and the attribute-free
    style elements; a document that uses anything else (numeric character
    references, [span], attributes, comments, empty-element tags, ...) is
    reported as [Unmodelled], and nothing is stated about its display. *)

Inductive tag : Type :=
| TagB | TagBig | TagI | TagS | TagSub | TagSup | TagSmall | TagTt | TagU.

Definition tag_eqb (a b : tag) : bool :=
  match a, b with
  | TagB, TagB | TagBig, TagBig | TagI, TagI | TagS, TagS | TagSub, TagSub
  | TagSup, TagSup | TagSmall, TagSmall | TagTt, TagTt | TagU, TagU => true
  | _, _ => false
  end.

Definition tag_of_name (name : string) : option tag :=
  if String.eqb name "b" then Some TagB
  else if String.eqb name "big" then Some TagBig
  else if String.eqb name "i" then Some TagI
  else if String.eqb name "s" then Some TagS
  else if String.eqb name "sub" then Some TagSub
  else if String.eqb name "sup" then Some TagSup
  else if String.eqb name "small" then Some TagSmall
  else if String.eqb name "tt" then Some TagTt
  else if String.eqb name "u" then Some TagU
  else None.

Definition entity_of_name (name : string) : option ascii :=
  if String.eqb name "amp" then Some "&"%char
  else if String.eqb name "lt" then Some "<"%char
  else if String.eqb name "gt" then Some ">"%char
  else if String.eqb name "quot" then Some "034"%char
  else if String.eqb name "apos" then Some "'"%char
  else None.

Definition is_lower (c : ascii) : bool :=
  (97 <=? nat_of_ascii c)%nat && (nat_of_ascii c <=? 122)%nat.

(** A displayed character, with the style elements that enclose it,
    innermost first. *)
Definition styled : Type := (ascii * list tag)%type.

Inductive parsed : Type :=
| Parsed (cs : list styled)
| Malformed
| Unmodelled.

Inductive pstate : Type :=
| InText
| InEntity (name : string)
| InOpen (name : string)
| InClose (name : string).

Definition snoc (name : string) (c : ascii) : string :=
  (name ++ String c EmptyString)%string.

(** The markup parser, one character at a time: [open] is the stack of
    open elements and [out] the characters displayed so far, last first.
    Line ends in character data are normalised: a carriage return, alone
    or followed by a line feed, is displayed as one line feed. *)
Fixpoint parse_markup (st : pstate) (open : list tag) (out : list styled)
         (s : string) : parsed :=
  match s with
  | EmptyString =>
      match st, open with
      | InText, [] => Parsed (rev out)
      | _, _ => Malformed
      end
  | String c rest =>
      match st with
      | InText =>
          if Ascii.eqb c "<" then parse_markup (InOpen "") open out rest
          else if Ascii.eqb c "&" then parse_markup (InEntity "") open out rest
          else if Ascii.eqb c "013" then
            match rest with
            | String c' rest' =>
                if Ascii.eqb c' "010" then
                  parse_markup InText open (("010"%char, open) :: out) rest'
                else parse_markup InText open (("010"%char, open) :: out) rest
            | EmptyString =>
                parse_markup InText open (("010"%char, open) :: out) rest
            end
          else parse_markup InText open ((c, open) :: out) rest
      | InEntity name =>
          if Ascii.eqb c ";" then
            match entity_of_name name with
            | Some e => parse_markup InText open ((e, open) :: out) rest
            | None => Malformed
            end
          else if Ascii.eqb c "#" && String.eqb name "" then Unmodelled
          else parse_markup (InEntity (snoc name c)) open out rest
      | InOpen name =>
          if Ascii.eqb c ">" then
            match tag_of_name name with
            | Some t => parse_markup InText (t :: open) out rest
            | None => Unmodelled
            end
          else if Ascii.eqb c "/" && String.eqb name "" then
            parse_markup (InClose "") open out rest
          else if is_lower c then parse_markup (InOpen (snoc name c)) open out rest
          else Unmodelled
      | InClose name =>
          if Ascii.eqb c ">" then
            match tag_of_name name, open with
            | Some t, top :: below =>
                if tag_eqb t top then parse_markup InText below out rest
                else Malformed
            | Some _, [] => Malformed
            | None, _ => Unmodelled
            end
          else if is_lower c then parse_markup (InClose (snoc name c)) open out rest
          else Unmodelled
      end
  end.

Definition pango_parse_markup (s : string) : parsed :=
  parse_markup InText [] [] s.

(** A label keeps the string it was given and what it displays; [None] is
    a display the model does not determine. *)
Record Label : Type := {
  label : string;
  display : option (list styled)
}.

Definition Label_new : Label := {| label := ""; display := Some [] |}.

(** [Gtk.Label.set_markup]: markup that fails to parse is reported by a
    warning and leaves the display as it was. *)
Definition set_markup (str : string) (l : Label) : Label :=
  {| label := str;
     display := match pango_parse_markup str with
                | Parsed cs => Some cs
                | Malformed => display l
                | Unmodelled => None
                end |}.

(** [Gtk.Label.get_text]: the displayed characters, without their style. *)
Definition get_text (l : Label) : option string :=
  option_map (fun cs => string_of_list_ascii (map fst cs)) (display l).

(** ** HIGFrame *)

Inductive ShadowType : Type :=
| SHADOW_NONE | SHADOW_IN | SHADOW_OUT | SHADOW_ETCHED_IN | SHADOW_ETCHED_OUT.

(** The label widget of a frame is the object held in [self._flabel], not
    a copy of it. *)
Inductive label_ref : Type := FLabel.

Record HIGFrame : Type := {
  shadow_type : ShadowType;
  label_widget : option label_ref;
  _flabel : option Label
}.

(** The argument of [HIGFrame(label=None)] and of [_set_label]. *)
Inductive pyval : Type :=
| PyNone
| PyStr (s : string).

(** ["%s" % v] *)
Definition format_s (v : pyval) : string :=
  match v with
  | PyNone => "None"
  | PyStr s => s
  end.

(** [Gtk.Frame.__init__(self)] *)
Definition Frame_init : HIGFrame :=
  {| shadow_type := SHADOW_ETCHED_IN; label_widget := None; _flabel := None |}.

Definition set_shadow_type (t : ShadowType) : M HIGFrame unit :=
  modify (fun f => {| shadow_type := t; label_widget := label_widget f;
                      _flabel := _flabel f |}).

Definition set_flabel (l : Label) : M HIGFrame unit :=
  modify (fun f => {| shadow_type := shadow_type f;
                      label_widget := label_widget f; _flabel := Some l |}).

Definition set_label_widget (r : label_ref) : M HIGFrame unit :=
  modify (fun f => {| shadow_type := shadow_type f; label_widget := Some r;
                      _flabel := _flabel f |}).

Definition _set_label (v : pyval) : M HIGFrame unit :=
  fun f => match _flabel f with
           | Some l =>
               set_flabel
                 (set_markup ("<b>" ++ format_s v ++ "</b>")%string l) f
           | None => Raise AttributeError
           end.

Definition HIGFrame_init (v : pyval) : result (unit * HIGFrame) :=
  (set_shadow_type SHADOW_NONE ;;;
   set_flabel Label_new ;;;
   _set_label v ;;;
   set_label_widget FLabel) Frame_init.

(** The caption a frame shows: the display of its label widget. *)
Definition caption (f : HIGFrame) : option Label :=
  match label_widget f with
  | Some FLabel => _flabel f
  | None => None
  end.

(** [s] in bold, nothing else applied. *)
Definition bold (s : string) : list styled :=
  map (fun c => (c, [TagB])) (list_ascii_of_string s).

(** No character of [s] opens a tag or an entity. *)
Fixpoint plain (s : string) : bool :=
  match s with
  | EmptyString => true
  | String c rest =>
      negb (Ascii.eqb c "<") && negb (Ascii.eqb c "&") && plain rest
  end.

(** Every character of [s] is displayed as it stands: none opens a tag or
    an entity, none is a carriage return, and none is the NUL that ends a
    string for the toolkit. *)
Fixpoint verbatim (s : string) : bool :=
  match s with
  | EmptyString => true
  | String c rest =>
      negb (Ascii.eqb c "<") && negb (Ascii.eqb c "&")
      && negb (Ascii.eqb c "013") && negb (Ascii.eqb c "000")
      && verbatim rest
  end.

(** The order [list.sort()] sorts by. *)
Definition str_le (a b : string) : Prop := String.leb a b = true.

(** ** Callers of the two classes *)

(** A call a user can make on a ProfileCombo; reading and assigning the
    attribute [selected_profile] are the last two, by [property]. *)
Inductive call : Type :=
| SetProfiles (profiles : list string)
| Update
| GetSelected
| SetSelected (profile : string).

Definition do_call (c : call) : M World unit :=
  match c with
  | SetProfiles profiles => set_profiles profiles
  | Update => update
  | GetSelected => _ <- get_selected_profile ;; ret tt
  | SetSelected profile => set_selected_profile profile
  end.

(** The calls of [cs], one after the other, on a widget just built. *)
Definition session (cfg : CommandProfile.store) (cs : list call)
  : result (unit * World) :=
  match ProfileCombo_init cfg with
  | Ok (_, w) => for_each cs do_call w
  | Raise e => Raise e
  end.

(** The demo of ProfileCombo.py, up to the window that shows the widget:
    [p = ProfileCombo()] and then [p.update()]. *)
Definition ProfileCombo_main (cfg : CommandProfile.store)
  : result (unit * World) :=
  session cfg [Update].

(** What the widget lets a user observe: the rows and the entry text. *)
Definition observe (w : World) : list string * string :=
  (displayed w, text (child (self w))).

(** The same calls on two independent cells, a list and a text. *)
Definition cell_step (names : list string) (st : list string * string)
           (c : call) : list string * string :=
  match c with
  | SetProfiles profiles => (profiles, snd st)
  | Update => (list_sort names, snd st)
  | GetSelected => st
  | SetSelected profile => (fst st, profile)
  end.

(** The completion reads column 0 of the combo's own store. *)
Definition linked (w : World) : Prop :=
  completion (self w)
  = {| completion_model := Some ComboModel; text_column := Some 0 |}.

(** A frame is built and its label then set to each of [vs] in turn. *)
Definition relabelled (v : pyval) (vs : list pyval)
  : result (unit * HIGFrame) :=
  match HIGFrame_init v with
  | Ok (_, f) => for_each vs _set_label f
  | Raise e => Raise e
  end.

(** [s] with every character in the style of the open elements [open]. *)
Definition in_style (open : list tag) (s : string) : list styled :=
  map (fun c => (c, open)) (list_ascii_of_string s).

(** * Properties of the monad and of the toolkit model *)

Section MonadLaws.

Context {S A B : Type}.

Lemma bind_ok (c : M S A) (k : A -> M S B) s a s' :
  c s = Ok (a, s') -> bind c k s = k a s'.
Proof. intros H. unfold bind. rewrite H. reflexivity. Qed.

End MonadLaws.

Arguments bind_ok {S A B c} k {s a s'} _.

Lemma with_model_same w : with_model (model (self w)) w = w.
Proof. destruct w as [c [m e k]]. reflexivity. Qed.

(** ** The two loops of set_profiles *)

(** One pass of the clearing loop on a store that still has a row: the
    lookup gives the first row and the deletion removes it. *)
Lemma clear_step x rest w :
  model (self w) = x :: rest ->
  (iter <- list_get_iter_first ;; list_delitem iter) w
  = Ok (tt, with_model rest w).
Proof.
  intros Hm. unfold bind, list_get_iter_first, list_delitem.
  rewrite Hm. reflexivity.
Qed.

(** On an empty store the lookup finds no row and the deletion raises. *)
Lemma clear_step_empty w :
  model (self w) = [] ->
  (iter <- list_get_iter_first ;; list_delitem iter) w = Raise TypeError.
Proof.
  intros Hm. unfold bind, list_get_iter_first, list_delitem.
  rewrite Hm. reflexivity.
Qed.

Lemma clear_rows_skipn n : forall w,
  n <= List.length (model (self w)) ->
  clear_rows n w = Ok (tt, with_model (skipn n (model (self w))) w).
Proof.
  induction n as [|n IH]; intros w Hn.
  - cbn. rewrite with_model_same. reflexivity.
  - destruct (model (self w)) as [|x rest] eqn:Hm; [cbn in Hn; lia|].
    unfold clear_rows. cbn [for_range].
    rewrite (bind_ok _ (clear_step x rest w Hm)).
    fold (clear_rows n). rewrite IH by (cbn in *; lia).
    reflexivity.
Qed.

Lemma append_rows_app profiles : forall w,
  append_rows profiles w = Ok (tt, with_model (model (self w) ++ profiles) w).
Proof.
  induction profiles as [|p ps IH]; intros w.
  - cbn. rewrite app_nil_r, with_model_same. reflexivity.
  - unfold append_rows. cbn [for_each].
    assert (Hstep : list_append [p] w
                    = Ok (tt, with_model (model (self w) ++ [p]) w))
      by reflexivity.
    rewrite (bind_ok _ Hstep). fold (append_rows ps). rewrite IH.
    cbn [with_model self model]. rewrite <- app_assoc. reflexivity.
Qed.

Lemma clear_rows_all w :
  clear_rows (ListStore.len (model (self w))) w = Ok (tt, with_model [] w).
Proof.
  unfold ListStore.len. rewrite clear_rows_skipn by lia.
  rewrite skipn_all. reflexivity.
Qed.

Lemma set_profiles_ok profiles w :
  set_profiles profiles w = Ok (tt, with_model profiles w).
Proof.
  unfold set_profiles.
  assert (Hlen : list_len w = Ok (ListStore.len (model (self w)), w))
    by reflexivity.
  rewrite (bind_ok _ Hlen).
  rewrite (bind_ok _ (clear_rows_all w)).
  rewrite append_rows_app. reflexivity.
Qed.

Lemma update_ok w :
  update w
  = Ok (tt, with_model
              (list_sort (CommandProfile.sections (CommandProfile.new (conf w))))
              w).
Proof. unfold update, bind. apply set_profiles_ok. Qed.

(** The widget as built: it displays the sorted section names, and its
    completion suggests from the very same rows. *)
Lemma ProfileCombo_init_ok cfg :
  exists w,
    ProfileCombo_init cfg = Ok (tt, w)
    /\ conf w = cfg
    /\ displayed w
       = list_sort (CommandProfile.sections (CommandProfile.new cfg))
    /\ suggestions w = displayed w
    /\ text (child (self w)) = "".
Proof.
  eexists. unfold ProfileCombo_init.
  unfold completion_set_model, completion_set_text_column, modify, bind.
  rewrite update_ok. repeat split.
Qed.

(** * ProfileCombo.set_profiles *)




(** C4: [set_profiles] with the empty sequence leaves nothing displayed,
    and [get_selected_profile] returns afterwards what it returned before;
    a text set just before the call is still the selected one. *)
Theorem set_profiles_empty_keeps_selection (w : World) :
  exists w' x,
    set_profiles [] w = Ok (tt, w')
    /\ displayed w' = []
    /\ get_selected_profile w = Ok (x, w)
    /\ get_selected_profile w' = Ok (x, w')
    /\ forall y, exists w'',
         (set_selected_profile y ;;; set_profiles [] ;;; get_selected_profile) w
         = Ok (y, w'').
Proof.
  exists (with_model [] w), (text (child (self w))).
  repeat split.
  - apply set_profiles_ok.
  - intros y. eexists. unfold bind, set_selected_profile, modify.
    rewrite set_profiles_ok. reflexivity.
Qed.


(** * The order on names and list.sort() *)

Lemma ascii_compare_refl a : Ascii.compare a a = Eq.
Proof. unfold Ascii.compare. apply N.compare_refl. Qed.

Lemma ascii_compare_trans a b c r :
  Ascii.compare a b <> Gt -> Ascii.compare b c <> Gt ->
  Ascii.compare a c = r ->
  r <> Gt
  /\ (r = Eq -> Ascii.compare a b = Eq /\ Ascii.compare b c = Eq).
Proof.
  unfold Ascii.compare. intros Hab Hbc Hac.
  destruct (N.compare_spec (N_of_ascii a) (N_of_ascii b)) as [E1|L1|G1];
    try congruence;
    destruct (N.compare_spec (N_of_ascii b) (N_of_ascii c)) as [E2|L2|G2];
    try congruence;
    destruct (N.compare_spec (N_of_ascii a) (N_of_ascii c)) as [E3|L3|G3];
    subst r; split; try congruence; try lia; intros _; split; auto; lia.
Qed.

Lemma str_le_refl a : str_le a a.
Proof.
  unfold str_le, String.leb. induction a as [|c a IH]; cbn; [reflexivity|].
  rewrite ascii_compare_refl. exact IH.
Qed.

Lemma str_le_trans a : forall b c, str_le a b -> str_le b c -> str_le a c.
Proof.
  unfold str_le, String.leb.
  induction a as [|x a IH]; intros [|y b] [|z c]; cbn; try congruence.
  intros Hab Hbc.
  destruct (ascii_compare_trans x y z (Ascii.compare x z)) as [Hgt Heq];
    try reflexivity.
  - destruct (Ascii.compare x y); congruence.
  - destruct (Ascii.compare y z); congruence.
  - destruct (Ascii.compare x z) eqn:Hxz; try congruence.
    destruct (Heq eq_refl) as [Hxy Hyz]. rewrite Hxy in Hab. rewrite Hyz in Hbc.
    exact (IH b c Hab Hbc).
Qed.

Lemma str_le_antisym a b : str_le a b -> str_le b a -> a = b.
Proof. apply String.leb_antisym. Qed.

(** A list has at most one sorted arrangement. *)
Lemma sorted_perm_unique l1 : forall l2,
  StronglySorted str_le l1 -> StronglySorted str_le l2 ->
  Permutation l1 l2 -> l1 = l2.
Proof.
  induction l1 as [|x xs IH]; intros l2 S1 S2 P.
  - apply Permutation_nil in P. congruence.
  - destruct l2 as [|y ys].
    + apply Permutation_sym, Permutation_nil in P. discriminate.
    + inversion S1 as [|? ? S1' F1]; inversion S2 as [|? ? S2' F2]; subst.
      assert (Hxy : x = y).
      { apply str_le_antisym.
        - assert (In y (x :: xs)) as [E|I]
            by (apply (Permutation_in y (Permutation_sym P)); left; reflexivity).
          + subst. apply str_le_refl.
          + exact (proj1 (Forall_forall _ _) F1 y I).
        - assert (In x (y :: ys)) as [E|I]
            by (apply (Permutation_in x P); left; reflexivity).
          + subst. apply str_le_refl.
          + exact (proj1 (Forall_forall _ _) F2 x I). }
      subst y. f_equal. apply IH; auto.
      exact (Permutation_cons_inv P).
Qed.

Lemma list_sort_sorted l : StronglySorted str_le (list_sort l).
Proof.
  apply StrSort.StronglySorted_sort.
  intros a b c. apply str_le_trans.
Qed.

Lemma list_sort_perm l : Permutation l (list_sort l).
Proof. apply StrSort.Permuted_sort. Qed.

(** * ProfileCombo.update *)

(** C2: after [update] the displayed list is the list of section names the
    configuration reader returned, sorted in ascending lexicographic order:
    it is a rearrangement of those names, it is sorted, and it is the only
    such list.  With the sections Intense Scan, Quick Scan, Ping Scan (in
    this order) the displayed list is Intense Scan, Ping Scan, Quick Scan. *)
Theorem update_displays_sorted (w : World) :
  let names := CommandProfile.sections (CommandProfile.new (conf w)) in
  (exists w',
     update w = Ok (tt, w')
     /\ displayed w' = list_sort names
     /\ Permutation names (displayed w')
     /\ StronglySorted str_le (displayed w')
     /\ forall l, Permutation names l -> StronglySorted str_le l ->
                  l = displayed w')
  /\ forall o1 o2 o3,
       update {| conf := Some [("Intense Scan", o1); ("Quick Scan", o2);
                               ("Ping Scan", o3)];
                 self := self w |}
       = Ok (tt, {| conf := Some [("Intense Scan", o1); ("Quick Scan", o2);
                                  ("Ping Scan", o3)];
                    self := {| model := ["Intense Scan"; "Ping Scan";
                                         "Quick Scan"];
                               child := child (self w);
                               completion := completion (self w) |} |}).
Proof.
  intros names. split.
  - exists (with_model (list_sort names) w).
    split; [apply update_ok|]. cbn [displayed with_model self model].
    repeat split.
    + apply list_sort_perm.
    + apply list_sort_sorted.
    + intros l P S. apply sorted_perm_unique; auto using list_sort_sorted.
      apply (Permutation_trans (Permutation_sym P)), list_sort_perm.
  - intros o1 o2 o3. rewrite update_ok. reflexivity.
Qed.

(** C6: [update] changes the displayed list and nothing else: the
    configuration store it read the names from is the same afterwards, and
    so are the entry and the completion of the widget. *)
Theorem update_frame (w : World) :
  exists w',
    update w = Ok (tt, w')
    /\ conf w' = conf w
    /\ child (self w') = child (self w)
    /\ completion (self w') = completion (self w).
Proof.
  eexists. split; [apply update_ok|]. repeat split.
Qed.

(** C7: when the configuration reader returns no section, [update] raises
    nothing and leaves the displayed list empty; this is so both for a store
    with no profile and for a store that is absent. *)
Theorem update_no_profiles (w : World) :
  CommandProfile.sections (CommandProfile.new (conf w)) = [] ->
  exists w', update w = Ok (tt, w') /\ displayed w' = [].
Proof.
  intros Hs. exists (with_model [] w). rewrite update_ok, Hs.
  split; reflexivity.
Qed.

Lemma update_no_profiles_witness :
  exists w',
    update {| conf := None;
              self := {| model := ["Quick Scan"]; child := Entry_new;
                         completion := EntryCompletion_new |} |}
    = Ok (tt, w')
    /\ displayed w' = [].
Proof. apply update_no_profiles. reflexivity. Defined.


(** * Markup of a label *)

Lemma plain_cons c s :
  plain (String c s) = true ->
  Ascii.eqb c "<" = false /\ Ascii.eqb c "&" = false /\ plain s = true.
Proof.
  cbn. intros H.
  apply andb_prop in H as [H Hs]. apply andb_prop in H as [H1 H2].
  repeat split; auto; now apply negb_true_iff.
Qed.

Lemma verbatim_cons c s :
  verbatim (String c s) = true ->
  Ascii.eqb c "<" = false /\ Ascii.eqb c "&" = false
  /\ Ascii.eqb c "013" = false /\ verbatim s = true.
Proof.
  cbn. intros H.
  apply andb_prop in H as [H Hs]. apply andb_prop in H as [H _].
  apply andb_prop in H as [H H3]. apply andb_prop in H as [H1 H2].
  repeat split; auto; now apply negb_true_iff.
Qed.

(** Character data free of [<], [&] and carriage returns is displayed as
    it stands, in the style of the elements open around it. *)
Lemma parse_plain s : forall open out rest,
  verbatim s = true ->
  parse_markup InText open out (s ++ rest)%string
  = parse_markup InText open
      (rev (map (fun c => (c, open)) (list_ascii_of_string s)) ++ out) rest.
Proof.
  induction s as [|c s IH]; intros open out rest Hp; [reflexivity|].
  apply verbatim_cons in Hp as (Hlt & Hamp & Hcr & Hs).
  cbn [String.append parse_markup]. rewrite Hlt, Hamp, Hcr, (IH _ _ _ Hs).
  cbn [list_ascii_of_string map rev]. rewrite <- app_assoc. reflexivity.
Qed.

Lemma parse_bold s :
  verbatim s = true ->
  pango_parse_markup ("<b>" ++ s ++ "</b>")%string = Parsed (bold s).
Proof.
  intros Hp. unfold pango_parse_markup.
  change (parse_markup InText [TagB] [] (s ++ "</b>")%string = Parsed (bold s)).
  rewrite (parse_plain _ _ _ _ Hp). cbn.
  rewrite app_nil_r, rev_involutive. reflexivity.
Qed.

Lemma text_of_bold s : string_of_list_ascii (map fst (bold s)) = s.
Proof.
  unfold bold. rewrite map_map. cbn [fst]. rewrite map_id.
  apply string_of_list_ascii_of_string.
Qed.

Lemma set_label_ok v f l :
  _flabel f = Some l ->
  _set_label v f
  = Ok (tt, {| shadow_type := shadow_type f;
               label_widget := label_widget f;
               _flabel := Some (set_markup
                                  ("<b>" ++ format_s v ++ "</b>")%string l) |}).
Proof. intros H. unfold _set_label. rewrite H. reflexivity. Qed.

Lemma HIGFrame_init_ok v :
  HIGFrame_init v
  = Ok (tt, {| shadow_type := SHADOW_NONE;
               label_widget := Some FLabel;
               _flabel := Some (set_markup
                                  ("<b>" ++ format_s v ++ "</b>")%string
                                  Label_new) |}).
Proof. reflexivity. Qed.

(** * HIGFrame *)

(** C5, as amended: for a label [s] with no [<], no [&], no carriage
    return and no NUL in it, the frame built with [s] shows a caption whose
    text is [s], every character of it in bold and in no other style;
    [_set_label s] on a frame replaces the caption in the same way and
    leaves the shadow type and the choice of label widget as they were. *)
Theorem label_rendered_bold (s : string) (Hplain : verbatim s = true) :
  (exists f l,
     HIGFrame_init (PyStr s) = Ok (tt, f)
     /\ caption f = Some l
     /\ display l = Some (bold s)
     /\ get_text l = Some s
     /\ shadow_type f = SHADOW_NONE)
  /\ forall f l0,
       _flabel f = Some l0 ->
       exists f' l',
         _set_label (PyStr s) f = Ok (tt, f')
         /\ _flabel f' = Some l'
         /\ display l' = Some (bold s)
         /\ get_text l' = Some s
         /\ shadow_type f' = shadow_type f
         /\ label_widget f' = label_widget f.
Proof.
  assert (Hd : forall l, display (set_markup ("<b>" ++ s ++ "</b>")%string l)
                         = Some (bold s)).
  { intros l. unfold set_markup. cbn [display].
    rewrite (parse_bold _ Hplain). reflexivity. }
  assert (Ht : forall l, get_text (set_markup ("<b>" ++ s ++ "</b>")%string l)
                         = Some s).
  { intros l. unfold get_text. rewrite Hd. cbn. now rewrite text_of_bold. }
  split.
  - do 2 eexists. rewrite HIGFrame_init_ok.
    split; [reflexivity|]. split; [reflexivity|]. cbn [format_s]. auto.
  - intros f l0 Hl. do 2 eexists. rewrite (set_label_ok _ _ _ Hl).
    split; [reflexivity|]. split; [reflexivity|]. cbn [format_s]. auto.
Qed.

Lemma label_rendered_bold_witness :
  (exists f l,
     HIGFrame_init (PyStr "A") = Ok (tt, f)
     /\ caption f = Some l
     /\ display l = Some (bold "A")
     /\ get_text l = Some "A"
     /\ shadow_type f = SHADOW_NONE)
  /\ exists f' l',
       _set_label (PyStr "A")
         {| shadow_type := SHADOW_IN; label_widget := Some FLabel;
            _flabel := Some Label_new |} = Ok (tt, f')
       /\ _flabel f' = Some l'
       /\ display l' = Some (bold "A")
       /\ get_text l' = Some "A"
       /\ shadow_type f' = SHADOW_IN
       /\ label_widget f' = Some FLabel.
Proof.
  destruct (label_rendered_bold "A" eq_refl) as [Hinit Hset].
  split; [exact Hinit|].
  exact (Hset {| shadow_type := SHADOW_IN; label_widget := Some FLabel;
                 _flabel := Some Label_new |} Label_new eq_refl).
Defined.

(** C5 fails for labels that contain markup: the label is read as markup,
    so the frame built with the label [Q&amp;A] shows the text [Q&A], not
    the label itself. *)
Lemma label_markup_counterexample :
  (exists f l,
     HIGFrame_init (PyStr "Q&amp;A") = Ok (tt, f)
     /\ caption f = Some l
     /\ get_text l = Some "Q&A")
  /\ ~ (exists f l,
          HIGFrame_init (PyStr "Q&amp;A") = Ok (tt, f)
          /\ caption f = Some l
          /\ get_text l = Some "Q&amp;A").
Proof.
  split.
  - do 2 eexists. repeat split.
  - intros (f & l & Hi & Hc & Ht).
    rewrite HIGFrame_init_ok in Hi. injection Hi as <-.
    cbn in Hc. injection Hc as <-. discriminate Ht.
Qed.

(** C9, as amended: built without a label argument, the frame does not
    show an empty caption: it shows the text None, four characters long,
    all of it in bold. *)
Theorem default_label_is_None :
  exists f l t,
    HIGFrame_init PyNone = Ok (tt, f)
    /\ caption f = Some l
    /\ display l = Some (bold "None")
    /\ display l <> Some []
    /\ get_text l = Some t
    /\ t = "None"
    /\ String.length t = 4.
Proof.
  do 3 eexists. rewrite HIGFrame_init_ok.
  repeat split; try reflexivity. discriminate.
Qed.

(** C9 fails on the length it gives: the caption shown for a missing label
    is not three characters long. *)
Lemma default_label_counterexample :
  ~ (exists f l t,
       HIGFrame_init PyNone = Ok (tt, f)
       /\ caption f = Some l
       /\ display l = Some (bold "None")
       /\ get_text l = Some t
       /\ String.length t = 3).
Proof.
  intros (f & l & t & Hi & Hc & _ & Ht & Hlen).
  rewrite HIGFrame_init_ok in Hi. injection Hi as <-.
  cbn in Hc. injection Hc as <-.
  cbn in Ht. injection Ht as <-. discriminate Hlen.
Qed.

Lemma update_displays_sorted_witness :
  ["Ping Scan"; "Quick Scan"] = list_sort ["Quick Scan"; "Ping Scan"].
Proof.
  pose (w := {| conf := Some [("Quick Scan", []); ("Ping Scan", [])];
                self := {| model := []; child := Entry_new;
                           completion := EntryCompletion_new |} |}).
  destruct (proj1 (update_displays_sorted w)) as (w' & _ & Hd & _ & _ & Hu).
  transitivity (displayed w'); [apply Hu | exact Hd].
  - apply perm_swap.
  - repeat constructor.
Defined.

(** * Sequences of calls on a ProfileCombo *)

Lemma do_call_step c w :
  exists w',
    do_call c w = Ok (tt, w')
    /\ conf w' = conf w
    /\ completion (self w') = completion (self w)
    /\ observe w'
       = cell_step (CommandProfile.sections (CommandProfile.new (conf w)))
                   (observe w) c.
Proof.
  destruct c as [profiles| | |profile]; cbn [do_call].
  - exists (with_model profiles w). rewrite set_profiles_ok. repeat split.
  - eexists. rewrite update_ok. repeat split.
  - exists w. repeat split.
  - exists (with_child {| text := profile |} w). repeat split.
Qed.

Lemma calls_run cs : forall w,
  exists w',
    for_each cs do_call w = Ok (tt, w')
    /\ conf w' = conf w
    /\ completion (self w') = completion (self w)
    /\ observe w'
       = fold_left
           (cell_step (CommandProfile.sections (CommandProfile.new (conf w))))
           cs (observe w).
Proof.
  induction cs as [|c cs IH]; intros w.
  - exists w. repeat split.
  - destruct (do_call_step c w) as (w1 & Hrun & Hconf & Hcomp & Hobs).
    destruct (IH w1) as (w2 & Hrun2 & Hconf2 & Hcomp2 & Hobs2).
    exists w2. cbn [for_each fold_left]. rewrite (bind_ok _ Hrun).
    split; [exact Hrun2|]. split; [congruence|]. split; [congruence|].
    rewrite Hobs2, Hconf, Hobs. reflexivity.
Qed.

Lemma linked_suggestions w : linked w -> suggestions w = displayed w.
Proof. unfold linked, suggestions. intros ->. reflexivity. Qed.

(** X1: on a widget built over any configuration store, no sequence of
    calls of [set_profiles], [update], [get_selected_profile] and
    [set_selected_profile] raises; the store is never modified, and the
    completion keeps suggesting from the very rows the widget displays. *)
Theorem session_safe (cfg : CommandProfile.store) (cs : list call) :
  exists w,
    session cfg cs = Ok (tt, w)
    /\ conf w = cfg
    /\ linked w
    /\ suggestions w = displayed w.
Proof.
  unfold session.
  destruct (ProfileCombo_init_ok cfg) as (w0 & Hinit & Hconf & _ & _ & _).
  assert (Hlink : linked w0).
  { unfold ProfileCombo_init, completion_set_model, completion_set_text_column,
      modify, bind in Hinit.
    rewrite update_ok in Hinit. injection Hinit as <-. reflexivity. }
  rewrite Hinit.
  destruct (calls_run cs w0) as (w & Hrun & Hc & Hcomp & _).
  exists w. split; [exact Hrun|]. split; [congruence|].
  assert (Hl : linked w) by (unfold linked in *; congruence).
  split; [exact Hl | exact (linked_suggestions w Hl)].
Qed.


(** X3: [update] is idempotent, so the second [update] of the demo, right
    after the widget is built, leaves the widget exactly as built. *)
Theorem update_twice (w : World) (cfg : CommandProfile.store) :
  (update ;;; update) w = update w
  /\ ProfileCombo_main cfg = ProfileCombo_init cfg.
Proof.
  assert (Hu : forall w0, (update ;;; update) w0 = update w0).
  { intros w0. rewrite (bind_ok _ (update_ok w0)), !update_ok. reflexivity. }
  split; [apply Hu|].
  unfold ProfileCombo_main, session. cbn [for_each].
  unfold ProfileCombo_init, completion_set_model, completion_set_text_column,
    modify, bind.
  rewrite !update_ok. reflexivity.
Qed.

(** X4: the order in which the store lists its profiles does not show:
    two stores whose section names are rearrangements of each other make
    [update] display the same list. *)
Theorem update_order_insensitive (w1 w2 : World) :
  Permutation (CommandProfile.sections (CommandProfile.new (conf w1)))
              (CommandProfile.sections (CommandProfile.new (conf w2))) ->
  exists r1 r2,
    update w1 = Ok (tt, r1)
    /\ update w2 = Ok (tt, r2)
    /\ displayed r1 = displayed r2.
Proof.
  intros P. do 2 eexists. rewrite !update_ok.
  split; [reflexivity|]. split; [reflexivity|].
  cbn [displayed with_model self model].
  apply sorted_perm_unique; auto using list_sort_sorted.
  eapply Permutation_trans; [apply Permutation_sym, list_sort_perm|].
  eapply Permutation_trans; [exact P | apply list_sort_perm].
Qed.

Lemma update_order_insensitive_witness :
  exists r1 r2,
    update {| conf := Some [("Quick Scan", []); ("Ping Scan", [])];
              self := {| model := []; child := Entry_new;
                         completion := EntryCompletion_new |} |}
    = Ok (tt, r1)
    /\ update {| conf := Some [("Ping Scan", []); ("Quick Scan", [])];
                 self := {| model := ["x"]; child := Entry_new;
                            completion := EntryCompletion_new |} |}
       = Ok (tt, r2)
    /\ displayed r1 = displayed r2.
Proof. apply update_order_insensitive. cbn. apply perm_swap. Defined.

(** * Labels that carry markup *)

Lemma string_app_assoc (a b c : string) :
  ((a ++ b) ++ c)%string = (a ++ (b ++ c))%string.
Proof. induction a as [|x a IH]; cbn; [reflexivity | now rewrite IH]. Qed.

Lemma in_style_app open (a b : string) :
  in_style open (a ++ b)%string = in_style open a ++ in_style open b.
Proof.
  unfold in_style. induction a as [|x a IH]; cbn; [reflexivity|].
  now rewrite IH.
Qed.

Lemma text_in_style open s : string_of_list_ascii (map fst (in_style open s)) = s.
Proof.
  unfold in_style. rewrite map_map. cbn [fst]. rewrite map_id.
  apply string_of_list_ascii_of_string.
Qed.

Lemma parse_text s open out rest :
  verbatim s = true ->
  parse_markup InText open out (s ++ rest)%string
  = parse_markup InText open (rev (in_style open s) ++ out) rest.
Proof. apply parse_plain. Qed.

Lemma entity_names name e :
  entity_of_name name = Some e ->
  (name = "amp" /\ e = "&"%char) \/ (name = "lt" /\ e = "<"%char)
  \/ (name = "gt" /\ e = ">"%char) \/ (name = "quot" /\ e = "034"%char)
  \/ (name = "apos" /\ e = "'"%char).
Proof.
  unfold entity_of_name.
  repeat match goal with
         | |- context [String.eqb name ?n] => destruct (String.eqb_spec name n)
         end; intros H; inversion H; subst; tauto.
Qed.

Lemma tag_names name t :
  tag_of_name name = Some t ->
  In (name, t) [("b", TagB); ("big", TagBig); ("i", TagI); ("s", TagS);
                ("sub", TagSub); ("sup", TagSup); ("small", TagSmall);
                ("tt", TagTt); ("u", TagU)].
Proof.
  unfold tag_of_name.
  repeat match goal with
         | |- context [String.eqb name ?n] => destruct (String.eqb_spec name n)
         end; intros H; inversion H; subst; cbn; tauto.
Qed.

(** A named entity stands for its character. *)
Lemma parse_entity name e open out rest :
  entity_of_name name = Some e ->
  parse_markup InText open out ("&" ++ name ++ ";" ++ rest)%string
  = parse_markup InText open ((e, open) :: out) rest.
Proof.
  intros H.
  destruct (entity_names name e H) as [[-> ->]|[[-> ->]|[[-> ->]|[[-> ->]|[-> ->]]]]];
    reflexivity.
Qed.

Lemma parse_open_tag name t open out rest :
  tag_of_name name = Some t ->
  parse_markup InText open out ("<" ++ name ++ ">" ++ rest)%string
  = parse_markup InText (t :: open) out rest.
Proof.
  intros H. apply tag_names in H. cbn [In] in H.
  repeat (destruct H as [H|H]; [injection H as <- <-; reflexivity|]).
  contradiction.
Qed.

Lemma parse_close_tag name t open out rest :
  tag_of_name name = Some t ->
  parse_markup InText (t :: open) out ("</" ++ name ++ ">" ++ rest)%string
  = parse_markup InText open out rest.
Proof.
  intros H. apply tag_names in H. cbn [In] in H.
  repeat (destruct H as [H|H]; [injection H as <- <-; reflexivity|]).
  contradiction.
Qed.

(** An entity name that starts with a blank is no entity, however the
    document goes on. *)
Lemma parse_blank_entity s : forall name open out,
  parse_markup (InEntity (String " " name)) open out s = Malformed.
Proof.
  induction s as [|c s IH]; intros name open out; [reflexivity|].
  cbn [parse_markup].
  destruct (Ascii.eqb c ";").
  - cbn. reflexivity.
  - replace (String.eqb (String " " name) "") with false by reflexivity.
    rewrite andb_false_r. apply IH.
Qed.

(** Text free of [<] and [&], carriage returns allowed, leads the parser
    to the ampersand that follows it, and the blank after it ends the
    parse. *)
Lemma parse_amp_blank rest n : forall p open out,
  String.length p <= n -> plain p = true ->
  parse_markup InText open out (p ++ "& " ++ rest)%string = Malformed.
Proof.
  assert (Hbase : forall open out,
             parse_markup InText open out ("& " ++ rest)%string = Malformed)
    by (intros open out; exact (parse_blank_entity rest "" open out)).
  induction n as [|n IH]; intros p open out Hn Hp.
  - destruct p; [apply Hbase | cbn in Hn; lia].
  - destruct p as [|c p]; [apply Hbase|].
    apply plain_cons in Hp as (Hlt & Hamp & Hp). cbn in Hn.
    cbn [String.append parse_markup]. rewrite Hlt, Hamp.
    destruct (Ascii.eqb c "013"); [|apply IH; [lia | exact Hp]].
    destruct p as [|c' p]; [apply Hbase|].
    cbn [String.append].
    destruct (Ascii.eqb c' "010").
    + apply plain_cons in Hp as (_ & _ & Hp). cbn in Hn.
      apply IH; [lia | exact Hp].
    + apply (IH (String c' p)); [lia | exact Hp].
Qed.

Lemma parse_bare_ampersand p rest :
  plain p = true ->
  pango_parse_markup ("<b>" ++ (p ++ "& " ++ rest) ++ "</b>")%string
  = Malformed.
Proof.
  intros Hp. unfold pango_parse_markup.
  change (parse_markup InText [TagB] []
            ((p ++ "& " ++ rest) ++ "</b>")%string = Malformed).
  rewrite !string_app_assoc.
  exact (parse_amp_blank (rest ++ "</b>") (String.length p) p [TagB] []
           (le_n _) Hp).
Qed.

Lemma parse_with_entity name e p q :
  entity_of_name name = Some e -> verbatim p = true -> verbatim q = true ->
  pango_parse_markup ("<b>" ++ (p ++ "&" ++ name ++ ";" ++ q) ++ "</b>")%string
  = Parsed (bold (p ++ String e q)).
Proof.
  intros He Hp Hq. unfold pango_parse_markup.
  change (parse_markup InText [TagB] []
            ((p ++ "&" ++ name ++ ";" ++ q) ++ "</b>")%string
          = Parsed (in_style [TagB] (p ++ String e q))).
  rewrite !string_app_assoc, (parse_text _ _ _ _ Hp).
  rewrite (parse_entity _ _ _ _ _ He), (parse_text _ _ _ _ Hq).
  cbn. rewrite in_style_app, app_nil_r, rev_app_distr, rev_involutive.
  cbn [rev]. rewrite rev_involutive, <- app_assoc. reflexivity.
Qed.

Lemma parse_nested name t s :
  tag_of_name name = Some t -> verbatim s = true ->
  pango_parse_markup
    ("<b>" ++ ("<" ++ name ++ ">" ++ s ++ "</" ++ name ++ ">") ++ "</b>")%string
  = Parsed (in_style [t; TagB] s).
Proof.
  intros Ht Hs. unfold pango_parse_markup.
  change (parse_markup InText [TagB] []
            (("<" ++ name ++ ">" ++ s ++ "</" ++ name ++ ">") ++ "</b>")%string
          = Parsed (in_style [t; TagB] s)).
  rewrite !string_app_assoc.
  rewrite (parse_open_tag _ _ _ _ _ Ht), (parse_text _ _ _ _ Hs).
  rewrite (parse_close_tag _ _ _ _ _ Ht).
  cbn. rewrite app_nil_r, rev_involutive. reflexivity.
Qed.

Lemma last_cons_default (a v : pyval) vs : last (a :: vs) v = last vs a.
Proof.
  revert a v. induction vs as [|b vs IH]; intros a v; [reflexivity|].
  change (last (a :: b :: vs) v) with (last (b :: vs) v).
  rewrite (IH b v), (IH b a). reflexivity.
Qed.

(** Each [_set_label] of a run replaces the markup string of the label;
    the display follows whenever the new label is shown as it stands. *)
Lemma set_labels_run vs : forall v f l0,
  _flabel f = Some l0 ->
  label l0 = ("<b>" ++ format_s v ++ "</b>")%string ->
  (verbatim (format_s v) = true -> display l0 = Some (bold (format_s v))) ->
  exists f' l',
    for_each vs _set_label f = Ok (tt, f')
    /\ shadow_type f' = shadow_type f
    /\ label_widget f' = label_widget f
    /\ _flabel f' = Some l'
    /\ label l' = ("<b>" ++ format_s (last vs v) ++ "</b>")%string
    /\ (verbatim (format_s (last vs v)) = true ->
        display l' = Some (bold (format_s (last vs v)))).
Proof.
  induction vs as [|a vs IH]; intros v f l0 Hf Hl Hd.
  - exists f, l0. repeat split; assumption.
  - cbn [for_each]. rewrite (bind_ok _ (set_label_ok a f l0 Hf)).
    set (l1 := set_markup ("<b>" ++ format_s a ++ "</b>")%string l0).
    assert (Hd1 : verbatim (format_s a) = true ->
                  display l1 = Some (bold (format_s a))).
    { intros Hp. unfold l1, set_markup. cbn [display].
      rewrite (parse_bold _ Hp). reflexivity. }
    destruct (IH a {| shadow_type := shadow_type f;
                      label_widget := label_widget f;
                      _flabel := Some l1 |} l1 eq_refl eq_refl Hd1)
      as (f' & l' & Hrun & Hs & Hw & Hf' & Hl' & Hd').
    exists f', l'. rewrite last_cons_default.
    repeat split; assumption.
Qed.

(** * HIGFrame: labels with markup, and relabelling *)

(** X5: a label whose first special character is an ampersand followed
    by a blank is not valid markup.  A frame built with such a label shows
    an empty caption, and [_set_label] with such a label leaves the caption
    that was shown before. *)
Theorem label_bare_ampersand (p rest : string) (Hplain : plain p = true) :
  (exists f l,
     HIGFrame_init (PyStr (p ++ "& " ++ rest)) = Ok (tt, f)
     /\ caption f = Some l
     /\ display l = Some []
     /\ get_text l = Some "")
  /\ forall f l0,
       _flabel f = Some l0 ->
       exists f' l',
         _set_label (PyStr (p ++ "& " ++ rest)) f = Ok (tt, f')
         /\ _flabel f' = Some l'
         /\ display l' = display l0.
Proof.
  assert (Hd : forall l,
             display (set_markup ("<b>" ++ (p ++ "& " ++ rest) ++ "</b>")%string l)
             = display l).
  { intros l. unfold set_markup. cbn [display].
    rewrite (parse_bare_ampersand _ rest Hplain). reflexivity. }
  split.
  - do 2 eexists. rewrite HIGFrame_init_ok.
    split; [reflexivity|]. split; [reflexivity|]. cbn [format_s].
    unfold get_text. rewrite Hd. split; reflexivity.
  - intros f l0 Hl. do 2 eexists. rewrite (set_label_ok _ _ _ Hl).
    split; [reflexivity|]. split; [reflexivity|]. apply Hd.
Qed.

Lemma label_bare_ampersand_witness :
  exists f l,
    HIGFrame_init (PyStr ("Ports" ++ "& " ++ "Hosts")) = Ok (tt, f)
    /\ caption f = Some l
    /\ display l = Some []
    /\ get_text l = Some "".
Proof. exact (proj1 (label_bare_ampersand "Ports" "Hosts" eq_refl)). Defined.

(** X6: a named entity in a label is decoded: around text free of markup,
    carriage returns and NUL, [&amp;], [&lt;], [&gt;], [&quot;] and
    [&apos;] are shown as the one character they name, in bold like the
    rest. *)
Theorem label_entity_decoded (name : string) (e : ascii) (p q : string) :
  entity_of_name name = Some e -> verbatim p = true -> verbatim q = true ->
  exists f l,
    HIGFrame_init (PyStr (p ++ "&" ++ name ++ ";" ++ q)) = Ok (tt, f)
    /\ caption f = Some l
    /\ display l = Some (bold (p ++ String e q))
    /\ get_text l = Some (p ++ String e q)%string.
Proof.
  intros He Hp Hq. do 2 eexists. rewrite HIGFrame_init_ok.
  split; [reflexivity|]. split; [reflexivity|]. cbn [format_s].
  unfold get_text, set_markup. cbn [display].
  rewrite (parse_with_entity _ _ _ _ He Hp Hq). cbn [option_map].
  rewrite text_of_bold. split; reflexivity.
Qed.

Lemma label_entity_decoded_witness :
  exists f l,
    HIGFrame_init (PyStr ("a " ++ "&" ++ "lt" ++ ";" ++ " b")) = Ok (tt, f)
    /\ caption f = Some l
    /\ display l = Some (bold "a < b")
    /\ get_text l = Some "a < b".
Proof.
  exact (label_entity_decoded "lt" "<" "a " " b" eq_refl eq_refl eq_refl).
Defined.

(** X7: a style element in a label is applied on top of the bold: text
    free of markup, carriage returns and NUL, wrapped in one of the
    elements b, big, i, s, sub, sup, small, tt, u, is shown without the
    tags, in that style and in bold. *)
Theorem label_nested_style (name : string) (t : tag) (s : string) :
  tag_of_name name = Some t -> verbatim s = true ->
  exists f l,
    HIGFrame_init (PyStr ("<" ++ name ++ ">" ++ s ++ "</" ++ name ++ ">"))
    = Ok (tt, f)
    /\ caption f = Some l
    /\ display l = Some (in_style [t; TagB] s)
    /\ get_text l = Some s.
Proof.
  intros Ht Hs. do 2 eexists. rewrite HIGFrame_init_ok.
  split; [reflexivity|]. split; [reflexivity|]. cbn [format_s].
  unfold get_text, set_markup. cbn [display].
  rewrite (parse_nested _ _ _ Ht Hs). cbn [option_map].
  rewrite text_in_style. split; reflexivity.
Qed.

Lemma label_nested_style_witness :
  exists f l,
    HIGFrame_init (PyStr ("<" ++ "i" ++ ">" ++ "A" ++ "</" ++ "i" ++ ">"))
    = Ok (tt, f)
    /\ caption f = Some l
    /\ display l = Some (in_style [TagI; TagB] "A")
    /\ get_text l = Some "A".
Proof. exact (label_nested_style "i" TagI "A" eq_refl eq_refl). Defined.

(** X8: when the last label given to a frame is free of markup, carriage
    returns and NUL, the caption is that label in bold, whatever labels the
    frame was built and relabelled with before (malformed ones included);
    nothing raised on the way, and the frame still has no shadow and the
    same label widget. *)
Theorem relabelled_last_wins (v : pyval) (vs : list pyval) :
  verbatim (format_s (last vs v)) = true ->
  exists f l,
    relabelled v vs = Ok (tt, f)
    /\ shadow_type f = SHADOW_NONE
    /\ caption f = Some l
    /\ label l = ("<b>" ++ format_s (last vs v) ++ "</b>")%string
    /\ display l = Some (bold (format_s (last vs v)))
    /\ get_text l = Some (format_s (last vs v)).
Proof.
  intros Hp. unfold relabelled. rewrite HIGFrame_init_ok.
  set (l0 := set_markup ("<b>" ++ format_s v ++ "</b>")%string Label_new).
  assert (Hd0 : verbatim (format_s v) = true ->
                display l0 = Some (bold (format_s v))).
  { intros Hv. unfold l0, set_markup. cbn [display].
    rewrite (parse_bold _ Hv). reflexivity. }
  destruct (set_labels_run vs v
              {| shadow_type := SHADOW_NONE; label_widget := Some FLabel;
                 _flabel := Some l0 |} l0 eq_refl eq_refl Hd0)
    as (f & l & Hrun & Hs & Hw & Hf & Hl & Hd).
  exists f, l. rewrite Hrun. cbn in Hs, Hw.
  split; [reflexivity|]. split; [exact Hs|].
  split; [unfold caption; rewrite Hw; exact Hf|].
  split; [exact Hl|]. split; [exact (Hd Hp)|].
  unfold get_text. rewrite (Hd Hp). cbn. now rewrite text_of_bold.
Qed.

Lemma relabelled_last_wins_witness :
  exists f l,
    relabelled PyNone [PyStr "A & B"; PyStr "Scan"] = Ok (tt, f)
    /\ shadow_type f = SHADOW_NONE
    /\ caption f = Some l
    /\ label l = "<b>Scan</b>"
    /\ display l = Some (bold "Scan")
    /\ get_text l = Some "Scan".
Proof.
  exact (relabelled_last_wins PyNone [PyStr "A & B"; PyStr "Scan"] eq_refl).
Defined.

(** A carriage return in a label, alone or before a line feed, is shown
    as a line feed: such a label is not shown as it stands. *)
Example label_line_ends :
  verbatim (String "a" (String "013" (String "b" ""))) = false
  /\ (exists f l,
        HIGFrame_init (PyStr (String "a" (String "013" (String "b" ""))))
        = Ok (tt, f)
        /\ caption f = Some l
        /\ get_text l = Some (String "a" (String "010" (String "b" ""))))
  /\ exists f l,
       HIGFrame_init
         (PyStr (String "a" (String "013" (String "010" (String "b" "")))))
       = Ok (tt, f)
       /\ caption f = Some l
       /\ get_text l = Some (String "a" (String "010" (String "b" ""))).
Proof.
  split; [reflexivity|].
  split; do 2 eexists; rewrite HIGFrame_init_ok; repeat split.
Qed.
